(** * Translation techniques: key-addressed DOM text binders

    A shallow embedding of the TypeScript demonstrations of
    enndylove/translation-techniques-ts:

    - [DataAttributes]   : translation-data-attributes.ts (one flat map);
    - [SeveralLanguages] : the language-keyed variant with [setLanguage];
    - [IntlVariant]      : the locale variant built on a platform formatter;
    - [ProxyVariant]     : the [Proxy] accessor of translations-proxy.ts;
    - [ToTheDOM]         : the class/text-match [Translate] class.

    The page is modelled twice.  [Page] is the page of element objects:
    a store of elements by identity, in which [querySelectorAll] returns
    references, [innerHTML = text] replaces the children of one element by
    the nodes the platform parses from the text, and a property read sees
    the members a plain object inherits ([JsObject]); the [translate()]
    methods over it are in [OnPage], and the statements about arbitrary
    documents, keys and texts are made there.  [Dom] is the page of the
    usage examples of the sources: a list of leaf elements holding plain
    text, with objects read through their own properties; it carries the
    receivers, the constructors and the setters, which do not depend on the
    page, and the usage examples themselves.

    A method runs in a small state-and-exception monad over the receiver
    ([this]), the document and the console.  What the platform supplies
    (the fragment parser, the rendering behind [innerText], the selector
    engine, [String.prototype.toLowerCase], the members of built-in
    functions, the message formatter of the locale variant) is a
    parameter of the definitions that call it. *)

From stdpp Require Import base option list strings gmap.

(** ** JavaScript values of type [string | undefined] *)

Module Js.

(** Truthiness of a [string | undefined]: [undefined] and the empty string
    are falsy, every other string is truthy. *)
Definition truthy (v : option string) : bool :=
  match v with
  | Some s => negb (String.eqb s EmptyString)
  | None => false
  end.

(** [v || d] on a [string | undefined] left operand. *)
Definition or (v : option string) (d : string) : string :=
  match v with
  | Some s => if truthy v then s else d
  | None => d
  end.

(** Coercion of a [string | undefined] to a property name or inside a
    template literal. *)
Definition ToString (v : option string) : string :=
  default "undefined" v.

(** [o?.[k]] on an object-or-undefined [o]: undefined when [o] is, the
    property otherwise. *)
Definition optional_index (o : option (gmap string string)) (k : string)
  : option string :=
  match o with
  | Some entry => entry !! k
  | None => None
  end.

(** The ASCII fragment of [String.prototype.toLowerCase]: [A]-[Z] are
    mapped to [a]-[z], every other byte is kept. *)
Definition ascii_lower (c : Ascii.ascii) : Ascii.ascii :=
  let n := Ascii.nat_of_ascii c in
  if (65 <=? n)%nat && (n <=? 90)%nat then Ascii.ascii_of_nat (n + 32)
  else c.

Fixpoint ascii_toLowerCase (s : string) : string :=
  match s with
  | EmptyString => EmptyString
  | String c s' => String (ascii_lower c) (ascii_toLowerCase s')
  end.

End Js.

(** ** The host page *)

Module Dom.

(** An element of the pages of the usage examples: a leaf with its
    classes, its [data-translate] attribute and a content without markup,
    for which the DOM reads back through [innerText] what was written
    through [innerHTML].  Nested elements, markup and rendering are the
    matter of [Page]. *)
Record Element := mkElement {
  classList : list string;
  dataset_translate : option string;
  innerHTML : string
}.

Definition innerText (e : Element) : string := innerHTML e.

Definition with_innerHTML (e : Element) (text : string) : Element :=
  {| classList := classList e;
     dataset_translate := dataset_translate e;
     innerHTML := text |}.

(** The two selectors the sources pass to [querySelectorAll]:
    ['[data-translate]'] and [`.${name}`]. *)
Inductive Selector :=
  | HasDataTranslate
  | HasClass (name : string).

Definition matches (sel : Selector) (e : Element) : bool :=
  match sel with
  | HasDataTranslate =>
      match dataset_translate e with Some _ => true | None => false end
  | HasClass name => bool_decide (name ∈ classList e)
  end.

(** What a method can read and write: its receiver, the ambient document
    and the console's warning channel. *)
Record State (T : Type) := mkState {
  this : T;
  document : list Element;
  console : list string
}.
Arguments mkState {T} _ _ _.
Arguments this {T} _.
Arguments document {T} _.
Arguments console {T} _.

Inductive Completion (A : Type) :=
  | Normal (a : A)
  | Throw (e : string).
Arguments Normal {A} _.
Arguments Throw {A} _.

Definition M (T A : Type) : Type := State T → Completion A * State T.

Definition ret {T A} (a : A) : M T A := λ s, (Normal a, s).

Definition bind {T A B} (m : M T A) (k : A → M T B) : M T B :=
  λ s, match m s with
       | (Normal a, s') => k a s'
       | (Throw e, s') => (Throw e, s')
       end.

Definition throw {T A} (e : string) : M T A := λ s, (Throw e, s).

Declare Scope js_scope.
Delimit Scope js_scope with js.
Notation "'let*' x := m 'in' k" := (bind m (λ x, k))
  (at level 10, x name, m at level 100, k at level 200) : js_scope.
Notation "m ;; k" := (bind m (λ _, k))
  (at level 100, k at level 200, right associativity) : js_scope.
Local Open Scope js_scope.

Definition get_this {T} : M T T := λ s, (Normal (this s), s).

Definition set_this {T} (t : T) : M T unit :=
  λ s, (Normal tt, mkState t (document s) (console s)).

(** Positions of the elements of [d] that match [sel], in document order;
    [n] is the position of the head of [d]. *)
Fixpoint select_from (sel : Selector) (n : nat) (d : list Element)
  : list nat :=
  match d with
  | [] => []
  | e :: d' =>
      if matches sel e then n :: select_from sel (S n) d'
      else select_from sel (S n) d'
  end.

Definition querySelectorAll {T} (sel : Selector) : M T (list nat) :=
  λ s, (Normal (select_from sel 0 (document s)), s).

(** Reading through a node reference; a reference that is not in the
    document is an error of the host. *)
Definition deref {T} (node : nat) : M T Element :=
  λ s, match document s !! node with
       | Some e => (Normal e, s)
       | None => (Throw "InvalidNodeReference", s)
       end.

Definition get_dataset_translate {T} (node : nat) : M T (option string) :=
  let* e := deref node in ret (dataset_translate e).

Definition get_innerText {T} (node : nat) : M T string :=
  let* e := deref node in ret (innerText e).

Definition set_innerHTML {T} (node : nat) (text : string) : M T unit :=
  let* e := deref node in
  λ s, (Normal tt,
        mkState (this s) (<[node := with_innerHTML e text]> (document s))
                (console s)).

Definition console_warn {T} (msg : string) : M T unit :=
  λ s, (Normal tt, mkState (this s) (document s) (console s ++ [msg])).

(** [NodeList.prototype.forEach] and [for ... of] over a node list. *)
Fixpoint forEach {T} (nodes : list nat) (callback : nat → M T unit)
  : M T unit :=
  match nodes with
  | [] => ret tt
  | node :: rest => callback node ;; forEach rest callback
  end.

(** The state a computation leaves behind. *)
Definition exec {T A} (m : M T A) (s : State T) : State T := snd (m s).

(** Calling a method on another object [receiver]: the callee sees the same
    document and console; the caller's [this] is untouched. *)
Definition call {T U A} (receiver : U) (method : M U A) : M T A :=
  λ s, let '(r, s') := method (mkState receiver (document s) (console s)) in
       (r, mkState (this s) (document s') (console s')).

(** A pass in closed form: what becomes of one element, and what it sends
    to the console, when matched elements are rewritten by [rewrite_element]
    and reported by [warnings]. *)
Definition pass_element {T} (sel : Selector)
    (rewrite_element : T → Element → Element) (t : T) (e : Element)
  : Element :=
  if matches sel e then rewrite_element t e else e.

Definition pass_warnings {T} (sel : Selector)
    (warnings : T → Element → list string) (t : T) (e : Element)
  : list string :=
  if matches sel e then warnings t e else [].

End Dom.

Import Dom.
Local Open Scope js_scope.

(** ** translation-data-attributes.ts *)

Module DataAttributes.

Record Translator := mkTranslator {
  translateMap : gmap string string
}.

(** [constructor(translateMap = {})]: an omitted argument is the empty
    map. *)
Definition constructor (translateMap : option (gmap string string))
  : Translator :=
  mkTranslator (default ∅ translateMap).

Definition not_found (key : option string) : string :=
  "Translation not found for key: " +:+ Js.ToString key.

Definition translate_element (element : nat) : M Translator unit :=
  let* key := get_dataset_translate element in
  let* self := get_this in
  let translation := translateMap self !! Js.ToString key in
  if Js.truthy translation
  then set_innerHTML element (Js.ToString translation)
  else console_warn (not_found key).

Definition translate : M Translator unit :=
  let* elements := querySelectorAll HasDataTranslate in
  forEach elements translate_element.

End DataAttributes.


(** ** Localization with support for several languages *)

Module SeveralLanguages.

Record Translator := mkTranslator {
  language : string;
  translations : gmap string (gmap string string)
}.

(** [this.language = language || 'en'; this.translations = translations || {}]. *)
Definition constructor (language : option string)
    (translations : option (gmap string (gmap string string)))
  : Translator :=
  mkTranslator (Js.or language "en") (default ∅ translations).

Definition setLanguage (language : string) : M Translator unit :=
  let* self := get_this in
  set_this (mkTranslator language (translations self)).

Definition not_found (key : option string) (language : string) : string :=
  "Translation not found for key: " +:+ Js.ToString key
    +:+ " in language: " +:+ language.

Definition translate_element (element : nat) : M Translator unit :=
  let* key := get_dataset_translate element in
  let* self := get_this in
  let translation :=
    Js.optional_index (translations self !! language self) (Js.ToString key) in
  if Js.truthy translation
  then set_innerHTML element (Js.ToString translation)
  else console_warn (not_found key (language self)).

Definition translate : M Translator unit :=
  let* elements := querySelectorAll HasDataTranslate in
  forEach elements translate_element.

End SeveralLanguages.

(** ** Contextual localization using Intl *)

Module IntlVariant.

(** [new Intl.MessageFormat(messages, locale)]: the formatter object keeps
    what it was built from. *)
Record MessageFormat := mkMessageFormat {
  messages : gmap string string;
  resolved_locale : string
}.

Record Translator := mkTranslator {
  locale : string;
  translations : gmap string (gmap string string);
  formatter : MessageFormat
}.

Definition constructor (locale : option string)
    (translations : option (gmap string (gmap string string)))
  : Translator :=
  let locale := Js.or locale "en-US" in
  let translations := default ∅ translations in
  mkTranslator locale translations
    (mkMessageFormat (default ∅ (translations !! locale)) locale).

Definition setLocale (locale : string) : M Translator unit :=
  let* self := get_this in
  set_this
    (mkTranslator locale (translations self)
       (mkMessageFormat (default ∅ (translations self !! locale)) locale)).

Definition not_found (key : option string) (locale : string) : string :=
  "Translation not found for key: " +:+ Js.ToString key
    +:+ " in locale: " +:+ locale.

Section Platform.
(** [formatter.format({ id: key })] is the platform's. *)
Variable format : MessageFormat → string → option string.

Definition translate_element (element : nat) : M Translator unit :=
  let* key := get_dataset_translate element in
  let* self := get_this in
  let translation := format (formatter self) (Js.ToString key) in
  if Js.truthy translation
  then set_innerHTML element (Js.ToString translation)
  else console_warn (not_found key (locale self)).

Definition translate : M Translator unit :=
  let* elements := querySelectorAll HasDataTranslate in
  forEach elements translate_element.
End Platform.

End IntlVariant.

(** ** A method to apply translation to the DOM (class and text match) *)

Module ToTheDOM.

Record Translate := mkTranslate {
  translateItem : string;
  translateFor : string;
  translateTo : string
}.

Definition constructor (translateItem translateFor translateTo : string)
  : Translate :=
  mkTranslate translateItem translateFor translateTo.

(** A record of the imported JSON list. *)
Record Item := mkItem {
  item_translateItem : string;
  item_translateFor : string;
  item_translateTo : string
}.

Section Platform.
(** [String.prototype.toLowerCase] is the platform's. *)
Variable toLowerCase : string → string.

Definition translate_element (translateItem : nat) : M Translate unit :=
  let* text := get_innerText translateItem in
  let* self := get_this in
  if String.eqb (toLowerCase text) (toLowerCase (translateFor self))
  then set_innerHTML translateItem (translateTo self)
  else ret tt.

(** The node list returned by [querySelectorAll] is an object, so the
    inner [if (translateItems)] always takes its branch. *)
Definition translate : M Translate unit :=
  let* self := get_this in
  if Js.truthy (Some (translateItem self))
  then
    let* translateItems := querySelectorAll (HasClass (translateItem self)) in
    forEach translateItems translate_element
  else ret tt.

(** [translateList.forEach(item => { new Translate(...).translate() })]. *)
Fixpoint translateList_forEach (translateList : list Item) : M unit unit :=
  match translateList with
  | [] => ret tt
  | item :: rest =>
      call (constructor (item_translateItem item) (item_translateFor item)
                        (item_translateTo item))
           translate ;;
      translateList_forEach rest
  end.
End Platform.

End ToTheDOM.

(** ** The attribute-keyed pass in closed form

    The three [data-translate] binders share one loop body up to how a key
    is resolved and how a miss is worded. *)

Module AttributePass.
Section AttributePass.
Context {T : Type}.
Variable resolve : T → string → option string.
Variable message : T → option string → string.

Definition callback (element : nat) : M T unit :=
  let* key := get_dataset_translate element in
  let* self := get_this in
  let translation := resolve self (Js.ToString key) in
  if Js.truthy translation
  then set_innerHTML element (Js.ToString translation)
  else console_warn (message self key).

Definition pass : M T unit :=
  let* elements := querySelectorAll HasDataTranslate in
  forEach elements callback.

Definition rewrite_element (t : T) (e : Element) : Element :=
  let translation := resolve t (Js.ToString (dataset_translate e)) in
  if Js.truthy translation
  then with_innerHTML e (Js.ToString translation)
  else e.

Definition warnings (t : T) (e : Element) : list string :=
  let translation := resolve t (Js.ToString (dataset_translate e)) in
  if Js.truthy translation then [] else [message t (dataset_translate e)].
End AttributePass.
End AttributePass.

(** How each binder resolves a key and words a miss. *)
Definition DataAttributes_resolve (t : DataAttributes.Translator)
    (key : string) : option string :=
  DataAttributes.translateMap t !! key.

Definition DataAttributes_message (t : DataAttributes.Translator)
    (key : option string) : string :=
  DataAttributes.not_found key.

Definition SeveralLanguages_resolve (t : SeveralLanguages.Translator)
    (key : string) : option string :=
  Js.optional_index
    (SeveralLanguages.translations t !! SeveralLanguages.language t) key.

Definition SeveralLanguages_message (t : SeveralLanguages.Translator)
    (key : option string) : string :=
  SeveralLanguages.not_found key (SeveralLanguages.language t).

Definition IntlVariant_resolve
    (format : IntlVariant.MessageFormat → string → option string)
    (t : IntlVariant.Translator) (key : string) : option string :=
  format (IntlVariant.formatter t) key.

Definition IntlVariant_message (t : IntlVariant.Translator)
    (key : option string) : string :=
  IntlVariant.not_found key (IntlVariant.locale t).

(** The class/text-match pass in closed form. *)
Definition ToTheDOM_rewrite (toLowerCase : string → string)
    (t : ToTheDOM.Translate) (e : Element) : Element :=
  if String.eqb (toLowerCase (innerText e))
                (toLowerCase (ToTheDOM.translateFor t))
  then with_innerHTML e (ToTheDOM.translateTo t)
  else e.

Definition ToTheDOM_pass_element (toLowerCase : string → string)
    (t : ToTheDOM.Translate) (e : Element) : Element :=
  if Js.truthy (Some (ToTheDOM.translateItem t))
  then pass_element (HasClass (ToTheDOM.translateItem t))
         (ToTheDOM_rewrite toLowerCase) t e
  else e.

(** The receiver built for a record of the JSON list. *)
Definition ToTheDOM_receiver (item : ToTheDOM.Item) : ToTheDOM.Translate :=
  ToTheDOM.constructor (ToTheDOM.item_translateItem item)
    (ToTheDOM.item_translateFor item) (ToTheDOM.item_translateTo item).

(** ** Fixtures of the sources' usage examples *)

Module Fixtures.

(** [<div class="menu-item">Pork Ribs</div>] and
    [<div class="menu-item">Steak</div>]. *)
Definition menu : list Element :=
  [mkElement ["menu-item"] None "Pork Ribs";
   mkElement ["menu-item"] None "Steak"].

Definition menu_translated : list Element :=
  [mkElement ["menu-item"] None "Свинині ребра";
   mkElement ["menu-item"] None "Стейк"].

(** The JSON list of the usage example. *)
Definition translateList : list ToTheDOM.Item :=
  [ToTheDOM.mkItem "menu-item" "Pork Ribs" "Свинині ребра";
   ToTheDOM.mkItem "menu-item" "Steak" "Стейк"].

(** [<p data-translate="hello">Hello</p>]. *)
Definition hello : Element := mkElement [] (Some "hello") "Hello".

Definition hello_with (text : string) : Element :=
  mkElement [] (Some "hello") text.


Definition en_US_only : gmap string (gmap string string) :=
  {["en-US" := {["hello" := "Hi"]}]}.

Definition en_uk : gmap string (gmap string string) :=
  <["en" := {["hello" := "Hello"]}]> {["uk" := {["hello" := "Привіт"]}]}.

End Fixtures.


(** ** Property reads on plain objects

    A read [o[k]] finds the own property [k] of [o] or, failing that, the
    member [k] that a plain object inherits from [Object.prototype]. *)

Module JsObject.

(** What a read can yield.  [VFunction] is a built-in function, named as
    its [name] property is; [VObjectPrototype] is [Object.prototype];
    [VOther] is any other value of the platform, known by its truthiness
    and its conversion to a string, which is all the sources observe. *)
Inductive Value :=
  | VUndefined
  | VNull
  | VString (s : string)
  | VFunction (name : string)
  | VObjectPrototype
  | VObject (own : gmap string string)
  | VOther (truthy : bool) (text : string).

Definition truthy (v : Value) : bool :=
  match v with
  | VUndefined | VNull => false
  | VString s => negb (String.eqb s EmptyString)
  | VFunction _ | VObjectPrototype | VObject _ => true
  | VOther b _ => b
  end.

(** The conversion applied by [innerHTML = v]. *)
Definition ToString (v : Value) : string :=
  match v with
  | VUndefined => "undefined"
  | VNull => "null"
  | VString s => s
  | VFunction name => "function " +:+ name +:+ "() { [native code] }"
  | VObjectPrototype | VObject _ => "[object Object]"
  | VOther _ text => text
  end.

(** The function-valued own properties of [Object.prototype], other than
    [constructor]. *)
Definition prototype_functions : list string :=
  ["toString"; "toLocaleString"; "valueOf"; "hasOwnProperty";
   "isPrototypeOf"; "propertyIsEnumerable"; "__defineGetter__";
   "__defineSetter__"; "__lookupGetter__"; "__lookupSetter__"].


(** The member [k] inherited by an object whose prototype is
    [Object.prototype]; [__proto__] is the accessor that returns that
    prototype. *)
Definition inherited_member (k : string) : Value :=
  if String.eqb k "constructor" then VFunction "Object"
  else if String.eqb k "__proto__" then VObjectPrototype
  else if bool_decide (k ∈ prototype_functions) then VFunction k
  else VUndefined.

(** [o[k]] on an object with the own string properties [o]. *)
Definition get (o : gmap string string) (k : string) : Value :=
  match o !! k with
  | Some s => VString s
  | None => inherited_member k
  end.

(** [table[k]] on an object whose own properties are objects. *)
Definition get_table (table : gmap string (gmap string string)) (k : string)
  : Value :=
  match table !! k with
  | Some entry => VObject entry
  | None => inherited_member k
  end.

Section Platform.
(** The members of the built-in functions ([Object.name], [Object.keys],
    [toString.call], ...) are the platform's: [function_member f k] is
    member [k] of the built-in function named [f]. *)
Variable function_member : string → string → Value.

(** The members of a string (its [length], its characters, the methods of
    [String.prototype]) are the platform's too. *)
Variable string_member : string → string → Value.

(** [v?.[k]]: undefined on [undefined] and [null], the member otherwise.
    On [Object.prototype] itself [__proto__] is [null]. *)
Definition optional_get (v : Value) (k : string) : Value :=
  match v with
  | VUndefined | VNull => VUndefined
  | VObject own => get own k
  | VObjectPrototype =>
      if String.eqb k "__proto__" then VNull else inherited_member k
  | VFunction f => function_member f k
  | VString s => string_member s k
  | VOther _ _ => VUndefined
  end.
End Platform.

End JsObject.

(** ** The page as a tree of element objects

    An element is an object with an identity: the node list returned by
    [querySelectorAll] holds references, and assigning [innerHTML] replaces
    the children of one element by freshly created nodes while the former
    children stay alive, detached, for whoever still refers to them.  The
    page is therefore a store of elements by identity, with the list of the
    top-level nodes of the document. *)

Module Page.

Inductive Node :=
  | Text (data : string)
  | Elem (id : nat).

Record Element := mkElement {
  tagName : string;
  attributes : gmap string string;
  childNodes : list Node
}.

(** Markup: a tree without identities, as the fragment parser produces it
    and as a page reads when its identities are forgotten. *)
Inductive Markup :=
  | MText (data : string)
  | MElem (tagName : string) (attributes : gmap string string)
          (children : list Markup).

(** [element.dataset.translate] is the value of [data-translate]. *)
Definition dataset_translate (e : Element) : option string :=
  attributes e !! "data-translate".

Definition with_childNodes (e : Element) (nodes : list Node) : Element :=
  mkElement (tagName e) (attributes e) nodes.

Record State (T : Type) := mkState {
  this : T;
  elements : gmap nat Element;
  next_id : nat;
  body : list Node;
  console : list string
}.
Arguments mkState {T} _ _ _ _ _.
Arguments this {T} _.
Arguments elements {T} _.
Arguments next_id {T} _.
Arguments body {T} _.
Arguments console {T} _.

Definition M (T A : Type) : Type := State T → Completion A * State T.

Definition ret {T A} (a : A) : M T A := λ s, (Normal a, s).

Definition bind {T A B} (m : M T A) (k : A → M T B) : M T B :=
  λ s, match m s with
       | (Normal a, s') => k a s'
       | (Throw e, s') => (Throw e, s')
       end.

Declare Scope page_scope.
Delimit Scope page_scope with page.
Notation "'let*' x := m 'in' k" := (bind m (λ x, k))
  (at level 10, x name, m at level 100, k at level 200) : page_scope.
Notation "m ;; k" := (bind m (λ _, k))
  (at level 100, k at level 200, right associativity) : page_scope.
Local Open Scope page_scope.

Definition get_this {T} : M T T := λ s, (Normal (this s), s).

Definition exec {T A} (m : M T A) (s : State T) : State T := snd (m s).

(** Creating the nodes of a markup forest: every element receives the next
    free identity, a parent before its children. *)
Fixpoint alloc_one (m : Markup) (σ : gmap nat Element) (n : nat)
  : Node * (gmap nat Element * nat) :=
  match m with
  | MText data => (Text data, (σ, n))
  | MElem tag attrs ms =>
      let '(nodes, (σ', n')) :=
        (fix alloc (ms : list Markup) (σ : gmap nat Element) (n : nat)
           : list Node * (gmap nat Element * nat) :=
           match ms with
           | [] => ([], (σ, n))
           | m :: ms' =>
               let '(x, (σ1, n1)) := alloc_one m σ n in
               let '(xs, (σ2, n2)) := alloc ms' σ1 n1 in
               (x :: xs, (σ2, n2))
           end) ms σ (S n) in
      (Elem n, (<[n := mkElement tag attrs nodes]> σ', n'))
  end.

Fixpoint alloc (ms : list Markup) (σ : gmap nat Element) (n : nat)
  : list Node * (gmap nat Element * nat) :=
  match ms with
  | [] => ([], (σ, n))
  | m :: ms' =>
      let '(x, (σ1, n1)) := alloc_one m σ n in
      let '(xs, (σ2, n2)) := alloc ms' σ1 n1 in
      (x :: xs, (σ2, n2))
  end.

(** Reading a subtree back as markup.  Identities grow from parent to
    child and stay below [next_id], so [next_id] steps reach every node. *)
Fixpoint read_node (fuel : nat) (σ : gmap nat Element) (node : Node)
  : Markup :=
  match node with
  | Text data => MText data
  | Elem id =>
      match fuel with
      | 0 => MText EmptyString
      | S fuel' =>
          match σ !! id with
          | Some e =>
              MElem (tagName e) (attributes e)
                    (map (read_node fuel' σ) (childNodes e))
          | None => MText EmptyString
          end
      end
  end.

Definition read (fuel : nat) (σ : gmap nat Element) (nodes : list Node)
  : list Markup :=
  map (read_node fuel σ) nodes.

(** The document as markup. *)
Definition snapshot {T} (s : State T) : list Markup :=
  read (next_id s) (elements s) (body s).

(** The page that displays a markup forest. *)
Definition load {T} (t : T) (ms : list Markup) (log : list string)
  : State T :=
  let '(nodes, (σ, n)) := alloc ms ∅ 0 in
  mkState t σ n nodes log.

(** The elements below [nodes] that pass [test], in document order. *)
Fixpoint collect_node (test : Element → bool) (fuel : nat)
    (σ : gmap nat Element) (node : Node) : list nat :=
  match node with
  | Text _ => []
  | Elem id =>
      match fuel with
      | 0 => []
      | S fuel' =>
          match σ !! id with
          | Some e =>
              (if test e then [id] else [])
                ++ flat_map (collect_node test fuel' σ) (childNodes e)
          | None => []
          end
      end
  end.

Definition collect (test : Element → bool) (fuel : nat)
    (σ : gmap nat Element) (nodes : list Node) : list nat :=
  flat_map (collect_node test fuel σ) nodes.

(** ['[data-translate]']: the elements that have the attribute. *)
Definition has_data_translate (e : Element) : bool :=
  match dataset_translate e with Some _ => true | None => false end.

Definition selected {T} (s : State T) : list nat :=
  collect has_data_translate (next_id s) (elements s) (body s).

(** [document.querySelectorAll('[data-translate]')]. *)
Definition querySelectorAll_data_translate {T} : M T (list nat) :=
  λ s, (Normal (selected s), s).

Definition deref {T} (id : nat) : M T Element :=
  λ s, match elements s !! id with
       | Some e => (Normal e, s)
       | None => (Throw "InvalidNodeReference", s)
       end.

Definition get_dataset_translate {T} (id : nat) : M T (option string) :=
  let* e := deref id in ret (dataset_translate e).

Definition console_warn {T} (msg : string) : M T unit :=
  λ s, (Normal tt,
        mkState (this s) (elements s) (next_id s) (body s)
                (console s ++ [msg])).

Fixpoint forEach {T} (nodes : list nat) (callback : nat → M T unit)
  : M T unit :=
  match nodes with
  | [] => ret tt
  | node :: rest => callback node ;; forEach rest callback
  end.

Section Platform.
(** The fragment parser behind the [innerHTML] setter is the platform's. *)
Variable parseHTML : string → list Markup.

(** [element.innerHTML = text]: the children of the element become the
    nodes created from the parsed text. *)
Definition set_innerHTML {T} (id : nat) (text : string) : M T unit :=
  let* e := deref id in
  λ s, let '(nodes, (σ, n)) :=
         alloc (parseHTML text) (elements s) (next_id s) in
       (Normal tt,
        mkState (this s) (<[id := with_childNodes e nodes]> σ) n
                (body s) (console s)).

(** The rendering behind the [innerText] getter is the platform's: the text
    it gives for an element, given the element's subtree. *)
Variable innerText : Markup → string.

Definition get_innerText {T} (id : nat) : M T string :=
  let* _ := deref id in
  λ s, (Normal (innerText (read_node (next_id s) (elements s) (Elem id))), s).

(** The selector engine is the platform's: for a selector text and the
    document it gives the selected elements, by their positions among the
    elements of the document in document order, or nothing when the text
    is not a selector, which [querySelectorAll] reports by throwing. *)
Variable css : string → list Markup → option (list nat).

Definition querySelectorAll {T} (selectors : string) : M T (list nat) :=
  λ s, match css selectors (snapshot s) with
       | Some positions =>
           let all := collect (λ _, true) (next_id s) (elements s) (body s) in
           (Normal (omap (λ i, all !! i) positions), s)
       | None => (Throw "SyntaxError", s)
       end.
End Platform.




(** The identities a page may use: every element's identity is below
    [next_id], and so are those of its children, which are above its
    own. *)
Definition child_ok (id n : nat) (node : Node) : Prop :=
  match node with
  | Text _ => True
  | Elem j => id < j ∧ j < n
  end.

Definition heap_ok (σ : gmap nat Element) (n : nat) : Prop :=
  ∀ id e, σ !! id = Some e → id < n ∧ Forall (child_ok id n) (childNodes e).

Definition root_ok (lo n : nat) (node : Node) : Prop :=
  match node with
  | Text _ => True
  | Elem j => lo ≤ j ∧ j < n
  end.

Definition wf {T} (s : State T) : Prop :=
  heap_ok (elements s) (next_id s)
  ∧ Forall (root_ok 0 (next_id s)) (body s).

End Page.

Notation "'let*' x := m 'in' k" := (Page.bind m (λ x, k))
  (at level 10, x name, m at level 100, k at level 200) : page_scope.
Notation "m ;; k" := (Page.bind m (λ _, k))
  (at level 100, k at level 200, right associativity) : page_scope.

(** ** The binders on the page

    The [translate()] methods again, over the page of element objects and
    with property reads that see inherited members.  The receivers are the
    [Translator] and [Translate] objects defined above. *)

Module OnPage.

Local Open Scope page_scope.

Module DataAttributes.
Section Platform.
Variable parseHTML : string → list Page.Markup.

Definition translate_element (element : nat)
  : Page.M DataAttributes.Translator unit :=
  let* key := Page.get_dataset_translate element in
  let* self := Page.get_this in
  let translation :=
    JsObject.get (DataAttributes.translateMap self) (Js.ToString key) in
  if JsObject.truthy translation
  then Page.set_innerHTML parseHTML element (JsObject.ToString translation)
  else Page.console_warn (DataAttributes.not_found key).

Definition translate : Page.M DataAttributes.Translator unit :=
  let* elements := Page.querySelectorAll_data_translate in
  Page.forEach elements translate_element.
End Platform.
End DataAttributes.

Module SeveralLanguages.
Section Platform.
Variable parseHTML : string → list Page.Markup.
Variable function_member : string → string → JsObject.Value.
Variable string_member : string → string → JsObject.Value.

(** [this.translations[this.language]?.[key]]. *)
Definition resolve (self : SeveralLanguages.Translator) (key : string)
  : JsObject.Value :=
  JsObject.optional_get function_member string_member
    (JsObject.get_table (SeveralLanguages.translations self)
                        (SeveralLanguages.language self))
    key.

Definition translate_element (element : nat)
  : Page.M SeveralLanguages.Translator unit :=
  let* key := Page.get_dataset_translate element in
  let* self := Page.get_this in
  let translation := resolve self (Js.ToString key) in
  if JsObject.truthy translation
  then Page.set_innerHTML parseHTML element (JsObject.ToString translation)
  else Page.console_warn
         (SeveralLanguages.not_found key (SeveralLanguages.language self)).

Definition translate : Page.M SeveralLanguages.Translator unit :=
  let* elements := Page.querySelectorAll_data_translate in
  Page.forEach elements translate_element.
End Platform.
End SeveralLanguages.

Module ToTheDOM.
Section Platform.
Variable toLowerCase : string → string.
Variable parseHTML : string → list Page.Markup.
Variable innerText : Page.Markup → string.
Variable css : string → list Page.Markup → option (list nat).

Definition translate_element (translateItem : nat)
  : Page.M ToTheDOM.Translate unit :=
  let* text := Page.get_innerText innerText translateItem in
  let* self := Page.get_this in
  if String.eqb (toLowerCase text)
                (toLowerCase (ToTheDOM.translateFor self))
  then Page.set_innerHTML parseHTML translateItem
         (ToTheDOM.translateTo self)
  else Page.ret tt.

Definition translate : Page.M ToTheDOM.Translate unit :=
  let* self := Page.get_this in
  if Js.truthy (Some (ToTheDOM.translateItem self))
  then
    let* translateItems :=
      Page.querySelectorAll css ("." +:+ ToTheDOM.translateItem self) in
    Page.forEach translateItems translate_element
  else Page.ret tt.
End Platform.
End ToTheDOM.

(** The attribute-keyed loop, up to how a key is resolved and how a miss
    is worded. *)
Section AttributePass.
Context {T : Type}.
Variable parseHTML : string → list Page.Markup.
Variable resolve : T → string → JsObject.Value.
Variable message : T → option string → string.

Definition callback (element : nat) : Page.M T unit :=
  let* key := Page.get_dataset_translate element in
  let* self := Page.get_this in
  let translation := resolve self (Js.ToString key) in
  if JsObject.truthy translation
  then Page.set_innerHTML parseHTML element (JsObject.ToString translation)
  else Page.console_warn (message self key).

Definition pass : Page.M T unit :=
  let* elements := Page.querySelectorAll_data_translate in
  Page.forEach elements callback.

(** The value an element's key resolves to. *)
Definition resolved (t : T) (e : Page.Element) : JsObject.Value :=
  resolve t (Js.ToString (Page.dataset_translate e)).

(** What the loop sends to the console for an element it visits. *)
Definition warning (t : T) (e : Page.Element) : list string :=
  if JsObject.truthy (resolved t e) then []
  else [message t (Page.dataset_translate e)].

(** The warnings for a list of visited elements, looked up in [σ]. *)
Definition warnings (t : T) (σ : gmap nat Page.Element) (ids : list nat)
  : list string :=
  flat_map (λ id, match σ !! id with
                  | Some e => warning t e
                  | None => []
                  end) ids.

(** A pass on markup: an element with the attribute whose key resolves to
    a truthy value receives the parsed text of that value as its children;
    elsewhere the pass goes on below. *)
Fixpoint pass_markup (t : T) (m : Page.Markup) : Page.Markup :=
  match m with
  | Page.MText data => Page.MText data
  | Page.MElem tag attrs ms =>
      let v := resolve t (Js.ToString (attrs !! "data-translate")) in
      if match attrs !! "data-translate" with
         | Some _ => JsObject.truthy v
         | None => false
         end
      then Page.MElem tag attrs (parseHTML (JsObject.ToString v))
      else Page.MElem tag attrs (map (pass_markup t) ms)
  end.
End AttributePass.

Definition DataAttributes_resolve (t : DataAttributes.Translator)
    (key : string) : JsObject.Value :=
  JsObject.get (DataAttributes.translateMap t) key.

Definition DataAttributes_message (t : DataAttributes.Translator)
    (key : option string) : string :=
  DataAttributes.not_found key.

Definition SeveralLanguages_message (t : SeveralLanguages.Translator)
    (key : option string) : string :=
  SeveralLanguages.not_found key (SeveralLanguages.language t).

End OnPage.

(** What creating nodes does: the new identities fill [n, n'), the store
    below [n] is not touched, the store stays in order and the new nodes
    read back as the markup they were created from. *)
Definition alloc_one_ok (m : Page.Markup) : Prop :=
  ∀ (σ σ' : gmap nat Page.Element) (n n' : nat) (x : Page.Node),
    Page.heap_ok σ n →
    Page.alloc_one m σ n = (x, (σ', n')) →
    n ≤ n' ∧ Page.heap_ok σ' n'
    ∧ (∀ id, id < n → σ' !! id = σ !! id)
    ∧ Page.root_ok n n' x
    ∧ (∀ fuel, n' - n ≤ fuel → Page.read_node fuel σ' x = m).

Definition alloc_ok (ms : list Page.Markup) : Prop :=
  ∀ (σ σ' : gmap nat Page.Element) (n n' : nat) (nodes : list Page.Node),
    Page.heap_ok σ n →
    Page.alloc ms σ n = (nodes, (σ', n')) →
    n ≤ n' ∧ Page.heap_ok σ' n'
    ∧ (∀ id, id < n → σ' !! id = σ !! id)
    ∧ Forall (Page.root_ok n n') nodes
    ∧ (∀ fuel, n' - n ≤ fuel → Page.read fuel σ' nodes = ms).

(** The state of the attribute-keyed loop after it has visited [done],
    having started from the store [σ0] with next identity [n0]: receiver
    and document roots are the initial ones, the console has received the
    warnings of the visited elements, and an element of the initial store
    has new children, which read as the parsed text of the value its key
    resolves to, exactly when it was visited and that value is truthy. *)
Definition visited_ok {T : Type} (parseHTML : string → list Page.Markup)
    (resolve : T → string → JsObject.Value)
    (message : T → option string → string)
    (t : T) (σ0 : gmap nat Page.Element) (n0 : nat)
    (body0 : list Page.Node) (log0 : list string)
    (done : list nat) (s : Page.State T) : Prop :=
  Page.this s = t
  ∧ Page.body s = body0
  ∧ n0 ≤ Page.next_id s
  ∧ Page.heap_ok (Page.elements s) (Page.next_id s)
  ∧ Page.console s = log0 ++ OnPage.warnings resolve message t σ0 done
  ∧ (∀ id e, σ0 !! id = Some e →
      if bool_decide (id ∈ done)
         && JsObject.truthy (OnPage.resolved resolve t e)
      then ∃ nodes,
             Page.elements s !! id = Some (Page.with_childNodes e nodes)
             ∧ Forall (Page.root_ok n0 (Page.next_id s)) nodes
             ∧ ∀ fuel, Page.next_id s - n0 ≤ fuel →
                 Page.read fuel (Page.elements s) nodes
                 = parseHTML
                     (JsObject.ToString (OnPage.resolved resolve t e))
      else Page.elements s !! id = Some e)
  ∧ (∀ id, id < n0 → σ0 !! id = None → Page.elements s !! id = None).

(** ** Pages and platforms of the examples *)

Module Examples.

(** A parser for texts without markup: the text is one text node. *)
Definition parse_text (text : string) : list Page.Markup :=
  [Page.MText text].






(** [<p data-translate="key">text</p>]. *)
Definition p (key text : string) : Page.Markup :=
  Page.MElem "p" {["data-translate" := key]} [Page.MText text].


End Examples.

(** ** Using Proxy for dynamic localization (translations-proxy.ts) *)

Module ProxyVariant.

Record Translator := mkTranslator {
  translations : gmap string string
}.

(** A property key is a string or a symbol. *)
Inductive PropertyKey :=
  | PString (name : string)
  | PSymbol (description : string).

(** The handler's [get] trap.  No object of the sources has a symbol-keyed
    member, so on a symbol the left operand of [||] is undefined and the
    template literal is evaluated: converting a symbol to a string throws
    a [TypeError]. *)
Definition get (target : Translator) (prop : PropertyKey)
  : Completion JsObject.Value :=
  match prop with
  | PString name =>
      let translation := JsObject.get (translations target) name in
      Normal
        (if JsObject.truthy translation then translation
         else JsObject.VString ("Translation not found for key: " +:+ name))
  | PSymbol _ =>
      Throw "TypeError: Cannot convert a Symbol value to a string"
  end.

(** [new Proxy(target, { get })]. *)
Record Proxy := mkProxy {
  target : Translator;
  handler_get : Translator → PropertyKey → Completion JsObject.Value
}.

(** The constructor returns the proxy in place of the instance. *)
Definition constructor (translations : gmap string string) : Proxy :=
  mkProxy (mkTranslator translations) get.

(** A property read on the proxy calls the trap with the target. *)
Definition proxy_get (p : Proxy) (prop : PropertyKey)
  : Completion JsObject.Value :=
  handler_get p (target p) prop.

(** The read as a step of the page's script. *)
Definition read (p : Proxy) (prop : PropertyKey) : M unit JsObject.Value :=
  λ s, (proxy_get p prop, s).

End ProxyVariant.

(** * Properties *)

(** ** The loop over a node list *)

Section forEach_spec.
Context {T : Type}.
Variable sel : Selector.
Variable callback : nat → M T unit.
Variable rewrite_element : T → Element → Element.
Variable warnings : T → Element → list string.

(** What one iteration does on a matched element: it completes normally,
    rewrites that element only and appends its warnings. *)
Hypothesis callback_spec : ∀ (s : State T) node e,
  document s !! node = Some e →
  matches sel e = true →
  callback node s =
    (Normal tt,
     mkState (this s) (<[node := rewrite_element (this s) e]> (document s))
             (console s ++ warnings (this s) e)).

Lemma forEach_select_from (t : T) (done todo : list Element)
    (log : list string) :
  forEach (select_from sel (length done) todo) callback
          (mkState t (done ++ todo) log) =
    (Normal tt,
     mkState t (done ++ map (pass_element sel rewrite_element t) todo)
             (log ++ flat_map (pass_warnings sel warnings t) todo)).
Proof.
  revert done log. induction todo as [|e todo IH]; intros done log.
  - simpl. unfold ret. by rewrite !app_nil_r.
  - simpl. unfold pass_element at 1, pass_warnings at 1.
    assert (Hshift : ∀ x : Element,
               done ++ x :: todo = (done ++ [x]) ++ todo)
      by (intros x; by rewrite <- app_assoc).
    assert (Hlen : ∀ x : Element, length (done ++ [x]) = S (length done))
      by (intros x; rewrite length_app; simpl; lia).
    destruct (matches sel e) eqn:Hm.
    + simpl. unfold bind at 1.
      rewrite (callback_spec (mkState t (done ++ e :: todo) log)
                 (length done) e); simpl; [| by apply list_lookup_middle | done].
      rewrite insert_app_r_alt, Nat.sub_diag by lia. simpl.
      rewrite (Hshift (rewrite_element t e)),
        <- (Hlen (rewrite_element t e)), IH.
      by rewrite <- !app_assoc.
    + rewrite (Hshift e), <- (Hlen e), IH.
      by rewrite <- !app_assoc.
Qed.

(** A pass: select, then visit every selected node. *)
Lemma forEach_querySelectorAll (s : State T) :
  (let* nodes := querySelectorAll sel in forEach nodes callback) s =
    (Normal tt,
     mkState (this s)
       (map (pass_element sel rewrite_element (this s)) (document s))
       (console s
          ++ flat_map (pass_warnings sel warnings (this s)) (document s))).
Proof.
  destruct s as [t d log]. unfold bind, querySelectorAll. simpl.
  apply (forEach_select_from t [] d log).
Qed.
End forEach_spec.

(** ** Passes that have a closed form *)

Section closed_pass.
Context {T : Type}.
Variable pass : M T unit.
Variable F : T → Element → Element.
Variable W : T → Element → list string.

Hypothesis pass_closed : ∀ s : State T,
  pass s =
    (Normal tt,
     mkState (this s) (map (F (this s)) (document s))
             (console s ++ flat_map (W (this s)) (document s))).

Lemma closed_exec (s : State T) :
  exec pass s =
    mkState (this s) (map (F (this s)) (document s))
            (console s ++ flat_map (W (this s)) (document s)).
Proof. unfold exec. by rewrite pass_closed. Qed.

End closed_pass.

(** ** The attribute-keyed binders *)

Lemma truthy_Some_nonempty (text : string) :
  text ≠ EmptyString → Js.truthy (Some text) = true.
Proof.
  intros Hne. simpl. apply negb_true_iff.
  by apply String.eqb_neq.
Qed.

Section attribute_pass.
Context {T : Type}.
Variable resolve : T → string → option string.
Variable message : T → option string → string.

Local Abbreviation callback := (AttributePass.callback resolve message).
Local Abbreviation pass := (AttributePass.pass resolve message).
Local Abbreviation rewrite_element := (AttributePass.rewrite_element resolve).
Local Abbreviation warnings := (AttributePass.warnings resolve message).
Local Abbreviation F := (pass_element HasDataTranslate rewrite_element).
Local Abbreviation W := (pass_warnings HasDataTranslate warnings).

Lemma attribute_callback_spec (s : State T) node e :
  document s !! node = Some e →
  matches HasDataTranslate e = true →
  callback node s =
    (Normal tt,
     mkState (this s) (<[node := rewrite_element (this s) e]> (document s))
             (console s ++ warnings (this s) e)).
Proof.
  intros Hnode _. destruct s as [t d log]. simpl in *.
  unfold AttributePass.callback, get_dataset_translate, get_this,
    set_innerHTML, console_warn, deref, bind, ret. simpl.
  rewrite Hnode. simpl.
  unfold AttributePass.rewrite_element, AttributePass.warnings.
  destruct (Js.truthy (resolve t (Js.ToString (dataset_translate e)))).
  - simpl. rewrite Hnode. simpl. by rewrite app_nil_r.
  - by rewrite list_insert_id.
Qed.

Lemma attribute_pass_closed (s : State T) :
  pass s =
    (Normal tt,
     mkState (this s) (map (F (this s)) (document s))
             (console s ++ flat_map (W (this s)) (document s))).
Proof.
  apply forEach_querySelectorAll, attribute_callback_spec.
Qed.

Lemma attribute_this (s : State T) : this (exec pass s) = this s.
Proof. unfold exec. by rewrite attribute_pass_closed. Qed.
End attribute_pass.

(** The binders of the sources are instances of the attribute-keyed pass. *)
Lemma DataAttributes_translate_pass :
  DataAttributes.translate =
  AttributePass.pass DataAttributes_resolve DataAttributes_message.
Proof. reflexivity. Qed.

Lemma SeveralLanguages_translate_pass :
  SeveralLanguages.translate =
  AttributePass.pass SeveralLanguages_resolve SeveralLanguages_message.
Proof. reflexivity. Qed.

Lemma IntlVariant_translate_pass
    (format : IntlVariant.MessageFormat → string → option string) :
  IntlVariant.translate format =
  AttributePass.pass (IntlVariant_resolve format) IntlVariant_message.
Proof. reflexivity. Qed.

(** ** The class/text-match binder *)

Section class_pass.
Variable toLowerCase : string → string.

Lemma ToTheDOM_callback_spec (sel : Selector)
    (s : State ToTheDOM.Translate) node e :
  document s !! node = Some e →
  matches sel e = true →
  ToTheDOM.translate_element toLowerCase node s =
    (Normal tt,
     mkState (this s)
       (<[node := ToTheDOM_rewrite toLowerCase (this s) e]> (document s))
       (console s ++ (λ _ _, []) (this s) e)).
Proof.
  intros Hnode _. destruct s as [t d log]. simpl in *.
  unfold ToTheDOM.translate_element, get_innerText, get_this,
    set_innerHTML, deref, bind, ret. simpl.
  rewrite Hnode. simpl. unfold ToTheDOM_rewrite. rewrite app_nil_r.
  destruct (String.eqb (toLowerCase (innerText e))
              (toLowerCase (ToTheDOM.translateFor t))).
  - simpl. by rewrite Hnode.
  - by rewrite list_insert_id.
Qed.

Lemma flat_map_no_warnings (sel : Selector) (t : ToTheDOM.Translate)
    (d : list Element) :
  flat_map (pass_warnings sel (λ _ _, []) t) d = [].
Proof.
  induction d as [|e d IH]; [done |]. simpl. rewrite IH.
  unfold pass_warnings. by destruct (matches sel e).
Qed.

Lemma ToTheDOM_translate_closed (s : State ToTheDOM.Translate) :
  ToTheDOM.translate toLowerCase s =
    (Normal tt,
     mkState (this s)
       (map (ToTheDOM_pass_element toLowerCase (this s)) (document s))
       (console s ++ flat_map (λ _, []) (document s))).
Proof.
  assert (Hnil : flat_map (λ _ : Element, @nil string) (document s) = [])
    by (induction (document s) as [|? ? IH]; [done | by simpl]).
  rewrite Hnil, app_nil_r.
  unfold ToTheDOM.translate, ToTheDOM_pass_element.
  unfold bind at 1, get_this. cbv beta iota.
  destruct (Js.truthy (Some (ToTheDOM.translateItem (this s)))).
  - rewrite (forEach_querySelectorAll
               (HasClass (ToTheDOM.translateItem (this s)))
               (ToTheDOM.translate_element toLowerCase)
               (ToTheDOM_rewrite toLowerCase) (λ _ _, [])
               (ToTheDOM_callback_spec _)).
    by rewrite flat_map_no_warnings, app_nil_r.
  - destruct s as [t d log]. unfold ret. simpl. by rewrite map_id.
Qed.

End class_pass.

(** ** The binder state *)

(** C9: [translate()] leaves the receiver as it found it, in every variant:
    the translation map or table, the active language or locale and the
    formatter are what they were before the call. *)
Theorem C9_translate_preserves_binder_state :
  (∀ s : State DataAttributes.Translator,
     this (exec DataAttributes.translate s) = this s)
  ∧
  (∀ s : State SeveralLanguages.Translator,
     this (exec SeveralLanguages.translate s) = this s)
  ∧
  (∀ (format : IntlVariant.MessageFormat → string → option string)
     (s : State IntlVariant.Translator),
     this (exec (IntlVariant.translate format) s) = this s)
  ∧
  (∀ (toLowerCase : string → string) (s : State ToTheDOM.Translate),
     this (exec (ToTheDOM.translate toLowerCase) s) = this s).
Proof.
  repeat split.
  - intros s. rewrite DataAttributes_translate_pass. apply attribute_this.
  - intros s. rewrite SeveralLanguages_translate_pass. apply attribute_this.
  - intros format s. rewrite IntlVariant_translate_pass.
    apply attribute_this.
  - intros toLowerCase s. unfold exec.
    by rewrite ToTheDOM_translate_closed.
Qed.

(** C7: [setLanguage(t)] completes normally for every string [t], in the
    table or not; afterwards the active language is [t], the table, the
    document and the console are what they were; and the receiver it
    leaves does not depend on the document or the console it ran in. *)
Theorem C7_setLanguage_frame :
  (∀ (tag : string) (s : State SeveralLanguages.Translator),
     SeveralLanguages.setLanguage tag s =
       (Normal tt,
        mkState
          (SeveralLanguages.mkTranslator tag
             (SeveralLanguages.translations (this s)))
          (document s) (console s)))
  ∧
  (∀ (tag : string) (t : SeveralLanguages.Translator)
     (d d' : list Element) (log log' : list string),
     this (exec (SeveralLanguages.setLanguage tag) (mkState t d log))
     = this (exec (SeveralLanguages.setLanguage tag) (mkState t d' log')))
  ∧
  (let uk := SeveralLanguages.constructor (Some "uk") (Some Fixtures.en_uk) in
   let en := SeveralLanguages.mkTranslator "en" Fixtures.en_uk in
   exec SeveralLanguages.translate (mkState uk [Fixtures.hello] [])
   = mkState uk [Fixtures.hello_with "Привіт"] []
   ∧ exec (SeveralLanguages.setLanguage "en")
       (mkState uk [Fixtures.hello_with "Привіт"] [])
     = mkState en [Fixtures.hello_with "Привіт"] []
   ∧ exec SeveralLanguages.translate
       (mkState en [Fixtures.hello_with "Привіт"] [])
     = mkState en [Fixtures.hello_with "Hello"] []).
Proof. repeat split; vm_compute; reflexivity. Qed.

(** ** The rule list of the class/text-match example *)

Lemma flat_map_nil {A B : Type} (l : list A) :
  flat_map (λ _ : A, @nil B) l = [].
Proof. induction l as [|? ? IH]; [done | by simpl]. Qed.

(** Applying the rules one after the other rewrites the document rule by
    rule and leaves the console alone. *)
Lemma translateList_forEach_closed (toLowerCase : string → string)
    (translateList : list ToTheDOM.Item) (s : State unit) :
  ToTheDOM.translateList_forEach toLowerCase translateList s =
    (Normal tt,
     mkState (this s)
       (foldl (λ d item,
                 map (ToTheDOM_pass_element toLowerCase
                        (ToTheDOM_receiver item)) d)
              (document s) translateList)
       (console s)).
Proof.
  revert s. induction translateList as [|item rest IH]; intros [t d log].
  - done.
  - simpl. unfold bind at 1, call.
    rewrite ToTheDOM_translate_closed. simpl.
    rewrite IH. simpl. by rewrite flat_map_nil, app_nil_r.
Qed.

(** C5: on the two [menu-item] elements "Pork Ribs" and "Steak", running the
    rule for "Pork Ribs" and then the rule for "Steak", each through its own
    [Translate] instance, leaves "Свинині ребра" and "Стейк".  Each rule
    compares the lower-cased text the element has when the rule runs with
    its lower-cased source text; of the platform's lower-casing the
    example needs only that it keeps these texts apart. *)
Theorem C5_menu_rules (toLowerCase : string → string) :
  toLowerCase "Steak" ≠ toLowerCase "Pork Ribs" →
  toLowerCase "Свинині ребра" ≠ toLowerCase "Steak" →
  ToTheDOM.translateList_forEach toLowerCase Fixtures.translateList
    (mkState tt Fixtures.menu []) =
    (Normal tt, mkState tt Fixtures.menu_translated []).
Proof.
  intros Hsteak Hribs.
  apply String.eqb_neq in Hsteak, Hribs.
  rewrite translateList_forEach_closed.
  unfold Fixtures.translateList, Fixtures.menu, Fixtures.menu_translated,
    ToTheDOM_receiver, ToTheDOM.constructor, ToTheDOM_pass_element,
    pass_element, ToTheDOM_rewrite, innerText.
  simpl. rewrite !String.eqb_refl, Hsteak. simpl.
  by rewrite !String.eqb_refl, Hribs.
Qed.

Lemma C5_menu_rules_witness :
  ToTheDOM.translateList_forEach Js.ascii_toLowerCase Fixtures.translateList
    (mkState tt Fixtures.menu []) =
    (Normal tt, mkState tt Fixtures.menu_translated []).
Proof.
  apply (C5_menu_rules Js.ascii_toLowerCase); vm_compute; discriminate.
Defined.

(** ** Construction *)




(** ** The locale binder *)



(** X8: [setLocale] with a non-empty tag leaves the binder that constructing
    afresh with that tag and the same table gives; the document and the
    console are not touched. *)
Theorem setLocale_as_constructed (locale : string)
    (s : State IntlVariant.Translator) :
  locale ≠ EmptyString →
  IntlVariant.setLocale locale s
  = (Normal tt,
     mkState
       (IntlVariant.constructor (Some locale)
          (Some (IntlVariant.translations (this s))))
       (document s) (console s)).
Proof.
  intros Hne. destruct s as [t d log].
  unfold IntlVariant.setLocale, IntlVariant.constructor, bind, get_this,
    set_this, Js.or. simpl.
  pose proof (truthy_Some_nonempty locale Hne) as Htr. simpl in Htr.
  by rewrite Htr.
Qed.

Lemma setLocale_as_constructed_witness :
  IntlVariant.setLocale "en-US"
    (mkState (IntlVariant.constructor (Some "uk-UA")
                (Some Fixtures.en_US_only)) [Fixtures.hello] [])
  = (Normal tt,
     mkState (IntlVariant.constructor (Some "en-US")
                (Some Fixtures.en_US_only)) [Fixtures.hello] []).
Proof.
  apply (setLocale_as_constructed "en-US"
           (mkState (IntlVariant.constructor (Some "uk-UA")
                       (Some Fixtures.en_US_only)) [Fixtures.hello] [])).
  discriminate.
Defined.

(** X9: the setters do not apply the constructor's default: after
    [setLanguage] or [setLocale] with the empty string the active tag is
    the empty string, where a binder constructed with it holds ['en'],
    respectively ['en-US']. *)
Theorem setters_do_not_default :
  (∀ s : State SeveralLanguages.Translator,
     SeveralLanguages.language
       (this (exec (SeveralLanguages.setLanguage EmptyString) s))
     = EmptyString
     ∧ SeveralLanguages.language
         (SeveralLanguages.constructor (Some EmptyString)
            (Some (SeveralLanguages.translations (this s))))
       = "en")
  ∧
  (∀ s : State IntlVariant.Translator,
     IntlVariant.locale (this (exec (IntlVariant.setLocale EmptyString) s))
     = EmptyString
     ∧ IntlVariant.formatter
         (this (exec (IntlVariant.setLocale EmptyString) s))
       = IntlVariant.mkMessageFormat
           (default ∅ (IntlVariant.translations (this s) !! EmptyString))
           EmptyString
     ∧ IntlVariant.locale
         (IntlVariant.constructor (Some EmptyString)
            (Some (IntlVariant.translations (this s))))
       = "en-US").
Proof.
  split; intros [t d log]; repeat split.
Qed.

(** ** The class/text-match rule *)

(** X11: a rule whose class name is the empty string does nothing: its
    [translate()] returns at once, without a selection, a write or a
    warning. *)
Theorem empty_class_rule_is_noop (toLowerCase : string → string)
    (s : State ToTheDOM.Translate) :
  ToTheDOM.translateItem (this s) = EmptyString →
  ToTheDOM.translate toLowerCase s = (Normal tt, s).
Proof.
  intros Hempty. unfold ToTheDOM.translate, bind, get_this.
  by rewrite Hempty.
Qed.

Lemma empty_class_rule_is_noop_witness :
  ToTheDOM.translate Js.ascii_toLowerCase
    (mkState (ToTheDOM.constructor EmptyString "Steak" "Стейк")
       Fixtures.menu [])
  = (Normal tt,
     mkState (ToTheDOM.constructor EmptyString "Steak" "Стейк")
       Fixtures.menu []).
Proof.
  apply (empty_class_rule_is_noop Js.ascii_toLowerCase
           (mkState (ToTheDOM.constructor EmptyString "Steak" "Стейк")
              Fixtures.menu [])).
  reflexivity.
Defined.

(** ** The proxy accessor *)








(** * The page of element objects *)

(** ** Markup and the store *)

Lemma Markup_nested_ind (P : Page.Markup → Prop) :
  (∀ data, P (Page.MText data)) →
  (∀ tag attrs ms, Forall P ms → P (Page.MElem tag attrs ms)) →
  ∀ m, P m.
Proof.
  intros Htext Helem. fix IH 1. intros [data | tag attrs ms].
  - apply Htext.
  - apply Helem. induction ms as [|m ms IHms]; constructor.
    + apply IH.
    + exact IHms.
Qed.

Lemma child_ok_root (id n : nat) (node : Page.Node) :
  Page.child_ok id n node → Page.root_ok (S id) n node.
Proof. destruct node; simpl; [done | lia]. Qed.

Lemma root_ok_weaken (lo lo' n n' : nat) (node : Page.Node) :
  lo' ≤ lo → n ≤ n' → Page.root_ok lo n node → Page.root_ok lo' n' node.
Proof. destruct node; simpl; [done | lia]. Qed.

(** A subtree reads the same in a store that agrees on its identities, and
    with any fuel that covers them. *)
Lemma read_node_frame (fuel : nat) :
  ∀ (fuel2 : nat) (σ σ2 : gmap nat Page.Element) (n a : nat)
    (node : Page.Node),
    Page.heap_ok σ n →
    Page.root_ok a n node →
    (∀ id, a ≤ id → id < n → σ2 !! id = σ !! id) →
    n - a ≤ fuel → n - a ≤ fuel2 →
    Page.read_node fuel2 σ2 node = Page.read_node fuel σ node.
Proof.
  induction fuel as [|fuel IH]; intros fuel2 σ σ2 n a node Hok Hroot Hagree
    Hf Hf2; destruct node as [data | j];
    try (by destruct fuel2); simpl in Hroot.
  - lia.
  - destruct fuel2 as [|fuel2]; [lia |]. simpl.
    rewrite (Hagree j) by lia.
    destruct (σ !! j) as [e|] eqn:Hj; [| done].
    f_equal. apply map_ext_in. intros child Hchild.
    destruct (Hok j e Hj) as [_ Hchildren].
    rewrite Forall_forall in Hchildren.
    apply (IH fuel2 σ σ2 n (S j)); try done; try lia.
    + apply child_ok_root, Hchildren. by apply list_elem_of_In.
    + intros id ? ?. apply Hagree; lia.
Qed.

Lemma read_frame (fuel fuel2 : nat) (σ σ2 : gmap nat Page.Element)
    (n a : nat) (nodes : list Page.Node) :
  Page.heap_ok σ n →
  Forall (Page.root_ok a n) nodes →
  (∀ id, a ≤ id → id < n → σ2 !! id = σ !! id) →
  n - a ≤ fuel → n - a ≤ fuel2 →
  Page.read fuel2 σ2 nodes = Page.read fuel σ nodes.
Proof.
  intros Hok Hroots Hagree Hf Hf2. unfold Page.read.
  apply map_ext_in. intros node Hnode. rewrite Forall_forall in Hroots.
  apply (read_node_frame fuel fuel2 σ σ2 n a); try done.
  apply Hroots. by apply list_elem_of_In.
Qed.

Lemma heap_ok_weaken (σ : gmap nat Page.Element) (n n' : nat) :
  n ≤ n' → Page.heap_ok σ n → Page.heap_ok σ n'.
Proof.
  intros Hle Hok id e He. destruct (Hok id e He) as [Hid Hch].
  split; [lia |]. eapply Forall_impl; [exact Hch |].
  intros [data | j]; simpl; [done | lia].
Qed.

(** Storing, at an identity below [n], an element whose children were
    created above it keeps the store in order. *)
Lemma heap_ok_insert (σ : gmap nat Page.Element) (n id : nat)
    (e : Page.Element) :
  Page.heap_ok σ n → id < n →
  Forall (Page.child_ok id n) (Page.childNodes e) →
  Page.heap_ok (<[id := e]> σ) n.
Proof.
  intros Hok Hid Hch j e' He'.
  destruct (decide (id = j)) as [-> | Hne].
  - rewrite lookup_insert_eq in He'. by simplify_eq.
  - rewrite lookup_insert_ne in He' by done. by apply Hok.
Qed.

Lemma alloc_ok_Forall (ms : list Page.Markup) :
  Forall alloc_one_ok ms → alloc_ok ms.
Proof.
  induction 1 as [|m ms Hm _ IH]; intros σ σ' n n' nodes Hok Halloc.
  - simpl in Halloc. simplify_eq.
    split; [lia |]. split; [done |]. split; [done |]. split; [constructor |].
    done.
  - simpl in Halloc.
    destruct (Page.alloc_one m σ n) as [x [σ1 n1]] eqn:H1.
    destruct (Page.alloc ms σ1 n1) as [xs [σ2 n2]] eqn:H2.
    simplify_eq.
    destruct (Hm _ _ _ _ _ Hok H1) as (Hle1 & Hok1 & Hfr1 & Hx & Hread1).
    destruct (IH _ _ _ _ _ Hok1 H2) as (Hle2 & Hok2 & Hfr2 & Hxs & Hread2).
    split; [lia |]. split; [done |]. split; [| split].
    + intros id Hid. rewrite Hfr2 by lia. by apply Hfr1.
    + constructor.
      * by apply (root_ok_weaken n n n1 n').
      * eapply Forall_impl; [exact Hxs |]. intros node.
        by apply root_ok_weaken.
    + intros fuel Hfuel. unfold Page.read in *. simpl. f_equal.
      * rewrite <- (Hread1 (n1 - n)) by lia.
        apply (read_node_frame (n1 - n) fuel σ1 σ' n1 n); try done; try lia.
        intros id _ Hid. by apply Hfr2.
      * apply Hread2. lia.
Qed.

Lemma alloc_one_spec (m : Page.Markup) : alloc_one_ok m.
Proof.
  induction m as [data | tag attrs ms IH] using Markup_nested_ind;
    intros σ σ' n n' x Hok Halloc.
  - simpl in Halloc. simplify_eq.
    split; [lia |]. split; [done |]. split; [done |]. split; [done |].
    intros fuel _. by destruct fuel.
  - change (Page.alloc_one (Page.MElem tag attrs ms) σ n)
      with (let '(nodes, (σ1, n1)) := Page.alloc ms σ (S n) in
            (Page.Elem n, (<[n := Page.mkElement tag attrs nodes]> σ1, n1)))
      in Halloc.
    destruct (Page.alloc ms σ (S n)) as [nodes [σ1 n1]] eqn:H1.
    simplify_eq.
    assert (HokS : Page.heap_ok σ (S n)) by (apply (heap_ok_weaken σ n); [lia | done]).
    destruct (alloc_ok_Forall ms IH _ _ _ _ _ HokS H1)
      as (Hle & Hok1 & Hfr & Hnodes & Hread).
    assert (Hchildren : Forall (Page.child_ok n n') nodes).
    { eapply Forall_impl; [exact Hnodes |].
      intros [d | j]; simpl; [done | lia]. }
    split; [lia |]. split; [| split; [| split]].
    + apply heap_ok_insert; [done | lia | done].
    + intros id Hid. rewrite lookup_insert_ne by lia. apply Hfr. lia.
    + simpl. lia.
    + intros fuel Hfuel. destruct fuel as [|fuel]; [lia |]. simpl.
      rewrite lookup_insert_eq. simpl. f_equal.
      rewrite <- (Hread fuel) by lia.
      apply (read_frame fuel fuel σ1 _ n' (S n)); try done; try lia.
      intros id Hid _. rewrite lookup_insert_ne by lia. done.
Qed.

Lemma alloc_spec (ms : list Page.Markup) : alloc_ok ms.
Proof.
  apply alloc_ok_Forall, Forall_forall. intros m _. apply alloc_one_spec.
Qed.

(** ** The attribute-keyed loop on the page *)

Section page_loop.
Context {T : Type}.
Variable parseHTML : string → list Page.Markup.
Variable resolve : T → string → JsObject.Value.
Variable message : T → option string → string.

(** The page the loop started from. *)
Variable t : T.
Variable σ0 : gmap nat Page.Element.
Variable n0 : nat.
Variable body0 : list Page.Node.
Variable log0 : list string.
Hypothesis heap0 : Page.heap_ok σ0 n0.

Local Abbreviation resolved := (OnPage.resolved resolve t).
Local Abbreviation written e :=
  (parseHTML (JsObject.ToString (OnPage.resolved resolve t e))).

Lemma visited_start : visited_ok parseHTML resolve message t σ0 n0 body0 log0 []
                        (Page.mkState t σ0 n0 body0 log0).
Proof.
  unfold visited_ok. simpl.
  split; [done |]. split; [done |]. split; [done |]. split; [done |].
  split; [by rewrite app_nil_r |].
  split; [intros id e He; done | done].
Qed.

Lemma warnings_snoc (done : list nat) (id : nat) (e : Page.Element) :
  σ0 !! id = Some e →
  OnPage.warnings resolve message t σ0 (done ++ [id])
  = OnPage.warnings resolve message t σ0 done
      ++ OnPage.warning resolve message t e.
Proof.
  intros He. unfold OnPage.warnings. rewrite flat_map_app. simpl.
  by rewrite He, app_nil_r.
Qed.

Lemma visited_step (done : list nat) (id : nat) (e : Page.Element)
    (s : Page.State T) :
  σ0 !! id = Some e →
  visited_ok parseHTML resolve message t σ0 n0 body0 log0 done s →
  ∃ s', OnPage.callback parseHTML resolve message id s = (Normal tt, s')
        ∧ visited_ok parseHTML resolve message t σ0 n0 body0 log0
            (done ++ [id]) s'.
Proof.
  intros He (Hthis & Hbody & Hle & Hheap & Hlog & Hrec & Habs).
  destruct s as [t' σ n body log]. simpl in *. subst t' body.
  destruct (heap0 id e He) as [Hid _].
  assert (Hcur : ∃ nodes0, σ !! id = Some (Page.with_childNodes e nodes0)).
  { specialize (Hrec id e He).
    destruct (bool_decide (id ∈ done) && JsObject.truthy (resolved e)).
    - destruct Hrec as (nodes0 & Hrec & _). eauto.
    - exists (Page.childNodes e). rewrite Hrec. by destruct e. }
  destruct Hcur as (nodes0 & Hcur).
  unfold OnPage.callback, Page.get_dataset_translate, Page.get_this,
    Page.deref, Page.bind, Page.ret. simpl. rewrite Hcur. simpl.
  change (Page.dataset_translate (Page.with_childNodes e nodes0))
    with (Page.dataset_translate e).
  fold (OnPage.resolved resolve t e).
  destruct (JsObject.truthy (resolved e)) eqn:Htruthy.
  - unfold Page.set_innerHTML, Page.deref, Page.bind. simpl.
    rewrite Hcur. simpl.
    destruct (Page.alloc (written e) σ n) as [nodes [σ1 n1]] eqn:Halloc.
    destruct (alloc_spec _ _ _ _ _ _ Hheap Halloc)
      as (Hle1 & Hheap1 & Hframe & Hroots & Hread).
    eexists. split; [reflexivity |].
    unfold visited_ok. simpl.
    split; [done |]. split; [done |]. split; [lia |].
    split; [| split; [| split]].
    4:{ intros id' Hid' Hnone.
        rewrite lookup_insert_ne by (intros ->; congruence).
        rewrite Hframe by lia. by apply Habs. }
    + apply heap_ok_insert; [done | lia |]. simpl.
      eapply Forall_impl; [exact Hroots |].
      intros [d | j]; simpl; [done | lia].
    + rewrite (warnings_snoc done id e He). unfold OnPage.warning.
      by rewrite Htruthy, app_nil_r.
    + intros id' e' He'. destruct (heap0 id' e' He') as [Hid' _].
      destruct (decide (id' = id)) as [-> | Hne].
      * simplify_eq.
        replace (bool_decide (id ∈ done ++ [id])) with true
          by (symmetry; apply bool_decide_eq_true_2, elem_of_app; right;
              by apply list_elem_of_singleton).
        rewrite Htruthy. simpl.
        exists nodes. rewrite lookup_insert_eq. split; [done |]. split.
        -- eapply Forall_impl; [exact Hroots |]. intros node.
           apply root_ok_weaken; lia.
        -- intros fuel Hfuel. rewrite <- (Hread fuel) by lia.
           apply (read_frame fuel fuel σ1 _ n1 n); try done; try lia.
           intros j Hj _. rewrite lookup_insert_ne by lia. done.
      * rewrite lookup_insert_ne by done. rewrite Hframe by lia.
        specialize (Hrec id' e' He').
        replace (bool_decide (id' ∈ done ++ [id]))
          with (bool_decide (id' ∈ done)).
        2:{ apply bool_decide_ext. rewrite elem_of_app, list_elem_of_singleton.
            naive_solver. }
        destruct (bool_decide (id' ∈ done)
                  && JsObject.truthy (OnPage.resolved resolve t e'));
          [| done].
        destruct Hrec as (nodes' & Hlook & Hroots' & Hread').
        exists nodes'. split; [done |]. split.
        -- eapply Forall_impl; [exact Hroots' |]. intros node.
           apply root_ok_weaken; lia.
        -- intros fuel Hfuel. rewrite <- (Hread' fuel) by lia.
           apply (read_frame fuel fuel σ _ n n0); try done; try lia.
           intros j Hj Hjn. rewrite lookup_insert_ne by lia.
           apply Hframe. lia.
  - unfold Page.console_warn. simpl. eexists. split; [reflexivity |].
    unfold visited_ok. simpl.
    split; [done |]. split; [done |]. split; [done |]. split; [done |].
    split; [| split; [| done]].
    + rewrite (warnings_snoc done id e He). unfold OnPage.warning.
      rewrite Htruthy, Hlog. by rewrite app_assoc.
    + intros id' e' He'. specialize (Hrec id' e' He').
      destruct (decide (id' = id)) as [-> | Hne].
      * simplify_eq. rewrite Htruthy, andb_false_r in *. done.
      * replace (bool_decide (id' ∈ done ++ [id]))
          with (bool_decide (id' ∈ done)); [done |].
        apply bool_decide_ext. rewrite elem_of_app, list_elem_of_singleton.
        naive_solver.
Qed.

Lemma visited_loop (todo : list nat) :
  ∀ (done : list nat) (s : Page.State T),
    Forall (λ id, is_Some (σ0 !! id)) todo →
    visited_ok parseHTML resolve message t σ0 n0 body0 log0 done s →
    ∃ s', Page.forEach todo (OnPage.callback parseHTML resolve message) s
          = (Normal tt, s')
          ∧ visited_ok parseHTML resolve message t σ0 n0 body0 log0
              (done ++ todo) s'.
Proof.
  induction todo as [|id todo IH]; intros done s Hall Hs.
  - exists s. rewrite app_nil_r. done.
  - inversion Hall as [|? ? [e He] Hall']; subst.
    destruct (visited_step done id e s He Hs) as (s1 & Hstep & Hs1).
    destruct (IH (done ++ [id]) s1 Hall' Hs1) as (s' & Hloop & Hs').
    exists s'. simpl. unfold Page.bind. rewrite Hstep.
    split; [done |]. by rewrite <- app_assoc in Hs'.
Qed.
End page_loop.

Lemma collect_node_valid (test : Page.Element → bool) (fuel : nat)
    (σ : gmap nat Page.Element) :
  ∀ (node : Page.Node) (id : nat),
    id ∈ Page.collect_node test fuel σ node →
    ∃ e, σ !! id = Some e ∧ test e = true.
Proof.
  induction fuel as [|fuel IH]; intros [data | j] id Hin; simpl in Hin;
    try by apply elem_of_nil in Hin.
  destruct (σ !! j) as [e|] eqn:Hj; [| by apply elem_of_nil in Hin].
  apply elem_of_app in Hin as [Hin | Hin].
  - destruct (test e) eqn:Htest; [| by apply elem_of_nil in Hin].
    apply list_elem_of_singleton in Hin. subst. eauto.
  - apply list_elem_of_In, in_flat_map in Hin as (child & _ & Hin).
    apply (IH child). by apply list_elem_of_In.
Qed.

Lemma collect_valid (test : Page.Element → bool) (fuel : nat)
    (σ : gmap nat Page.Element) (nodes : list Page.Node) (id : nat) :
  id ∈ Page.collect test fuel σ nodes →
  ∃ e, σ !! id = Some e ∧ test e = true.
Proof.
  unfold Page.collect. intros Hin.
  apply list_elem_of_In, in_flat_map in Hin as (node & _ & Hin).
  apply (collect_node_valid test fuel σ node). by apply list_elem_of_In.
Qed.

Section page_pass.
Context {T : Type}.
Variable parseHTML : string → list Page.Markup.
Variable resolve : T → string → JsObject.Value.
Variable message : T → option string → string.

(** A pass completes, and leaves the page that the loop invariant
    describes for the elements [querySelectorAll] returned. *)
Lemma pass_visited (s : Page.State T) :
  Page.heap_ok (Page.elements s) (Page.next_id s) →
  ∃ s', OnPage.pass parseHTML resolve message s = (Normal tt, s')
        ∧ visited_ok parseHTML resolve message (Page.this s)
            (Page.elements s) (Page.next_id s) (Page.body s)
            (Page.console s) (Page.selected s) s'.
Proof.
  intros Hheap. destruct s as [t σ n body log]. simpl in *.
  unfold OnPage.pass, Page.bind, Page.querySelectorAll_data_translate.
  simpl.
  apply (visited_loop parseHTML resolve message t σ n body log Hheap
           (Page.selected (Page.mkState t σ n body log)) []).
  - apply Forall_forall. intros id Hin.
    destruct (collect_valid _ _ _ _ _ Hin) as (e & He & _). eauto.
  - by apply visited_start.
Qed.



End page_pass.

(** ** A pass read as markup *)

Section page_markup.
Context {T : Type}.
Variable parseHTML : string → list Page.Markup.
Variable resolve : T → string → JsObject.Value.
Variable message : T → option string → string.

Local Abbreviation pass_markup := (OnPage.pass_markup parseHTML resolve).


(** After the loop has visited the selected elements, a subtree all of
    whose selected elements were visited reads as the pass on markup of
    what it read before. *)
Lemma visited_read (t : T) (σ0 : gmap nat Page.Element) (n0 : nat)
    (body0 : list Page.Node) (log0 : list string) (ids : list nat)
    (s' : Page.State T) :
  Page.heap_ok σ0 n0 →
  visited_ok parseHTML resolve message t σ0 n0 body0 log0 ids s' →
  (∀ id, id ∈ ids →
         ∃ e, σ0 !! id = Some e ∧ Page.has_data_translate e = true) →
  ∀ (fuel fuel' a : nat) (node : Page.Node),
    Page.root_ok a n0 node →
    n0 - a ≤ fuel → Page.next_id s' - a ≤ fuel' →
    (∀ id, id ∈ Page.collect_node Page.has_data_translate fuel σ0 node →
           id ∈ ids) →
    Page.read_node fuel' (Page.elements s') node
    = pass_markup t (Page.read_node fuel σ0 node).
Proof.
  intros Hheap (_ & _ & Hle & _ & _ & Hrec & Habs) Hids.
  induction fuel as [|fuel IH]; intros fuel' a [data | j] Hroot Hf Hf' Hsub;
    try (by destruct fuel'); simpl in Hroot; [lia |].
  destruct fuel' as [|fuel']; [lia |]. simpl.
  destruct (σ0 !! j) as [e|] eqn:Hj.
  2:{ rewrite (Habs j) by (done || lia). done. }
  specialize (Hrec j e Hj). simpl in Hsub. rewrite Hj in Hsub.
  destruct (Hheap j e Hj) as [_ Hchildren]. simpl.
  change (Page.attributes e !! "data-translate")
    with (Page.dataset_translate e).
  fold (OnPage.resolved resolve t e).
  destruct (bool_decide (j ∈ ids)
            && JsObject.truthy (OnPage.resolved resolve t e)) eqn:Hcond.
  - apply andb_true_iff in Hcond as [Hin Htruthy].
    apply bool_decide_eq_true_1 in Hin.
    destruct (Hids j Hin) as (e' & He' & Hattr). simplify_eq.
    unfold Page.has_data_translate in Hattr.
    destruct (Page.dataset_translate e) as [k|] eqn:Hk; [| done].
    rewrite Htruthy.
    destruct Hrec as (nodes & Hlook & _ & Hread). rewrite Hlook. simpl.
    f_equal. apply Hread. lia.
  - rewrite Hrec. simpl.
    replace (match Page.dataset_translate e with
             | Some _ => JsObject.truthy (OnPage.resolved resolve t e)
             | None => false
             end) with false.
    + f_equal. rewrite map_map. apply map_ext_in. intros child Hchild.
      rewrite Forall_forall in Hchildren.
      apply (IH fuel' (S j)); try lia.
      * apply (root_ok_weaken (S j) (S j) n0 n0); [lia | lia |].
        apply child_ok_root, Hchildren. by apply list_elem_of_In.
      * intros id Hid. apply Hsub, elem_of_app. right.
        apply list_elem_of_In, in_flat_map. exists child.
        split; [done | by apply list_elem_of_In].
    + destruct (Page.dataset_translate e) as [k|] eqn:Hk; [| done].
      apply andb_false_iff in Hcond as [Hnot | Hfalsy]; [| done].
      apply bool_decide_eq_false_1 in Hnot. exfalso. apply Hnot, Hsub.
      apply elem_of_app. left. unfold Page.has_data_translate.
      rewrite Hk. by left.
Qed.

(** The document after a pass is the pass on markup of the document
    before it, and the page is still well formed. *)
Lemma pass_snapshot (s : Page.State T) :
  Page.wf s →
  ∃ s', OnPage.pass parseHTML resolve message s = (Normal tt, s')
        ∧ Page.wf s'
        ∧ Page.this s' = Page.this s
        ∧ Page.snapshot s' = map (pass_markup (Page.this s)) (Page.snapshot s).
Proof.
  intros [Hheap Hroots].
  destruct (pass_visited parseHTML resolve message s Hheap)
    as (s' & Hpass & Hvis).
  pose proof Hvis as (Hthis & Hbody & Hle & Hheap' & _).
  exists s'. split; [done |]. split; [| split; [done |]].
  - split; [done |]. rewrite Hbody.
    eapply Forall_impl; [exact Hroots |]. intros node.
    apply root_ok_weaken; lia.
  - unfold Page.snapshot, Page.read. rewrite Hbody, map_map.
    apply map_ext_in. intros node Hnode. rewrite Forall_forall in Hroots.
    apply (visited_read (Page.this s) (Page.elements s) (Page.next_id s)
             (Page.body s) (Page.console s) (Page.selected s) s' Hheap Hvis)
      with (a := 0); try lia.
    + intros id Hin. by apply (collect_valid _ _ _ _ _ Hin).
    + apply Hroots. by apply list_elem_of_In.
    + intros id Hid. unfold Page.selected, Page.collect.
      apply list_elem_of_In, in_flat_map. exists node.
      split; [done | by apply list_elem_of_In].
Qed.

End page_markup.

(** A loaded page is well formed and reads as the markup it displays. *)
Lemma load_wf {T : Type} (t : T) (ms : list Page.Markup)
    (log : list string) :
  Page.wf (Page.load t ms log) ∧ Page.snapshot (Page.load t ms log) = ms.
Proof.
  unfold Page.load.
  destruct (Page.alloc ms ∅ 0) as [nodes [σ n]] eqn:Halloc.
  assert (Hempty : Page.heap_ok ∅ 0) by (intros id e He; done).
  destruct (alloc_spec ms _ _ _ _ _ Hempty Halloc)
    as (_ & Hheap & _ & Hroots & Hread).
  split; [split; [done | done] |].
  unfold Page.snapshot. simpl. apply Hread. lia.
Qed.

(** ** The selected elements and the document *)





Lemma DataAttributes_translate_on_page
    (parseHTML : string → list Page.Markup) :
  OnPage.DataAttributes.translate parseHTML
  = OnPage.pass parseHTML OnPage.DataAttributes_resolve
      OnPage.DataAttributes_message.
Proof. reflexivity. Qed.


(** ** Keys that resolve *)




(** ** Keys that do not resolve *)




(** ** A language without a table *)




(** ** Running a pass twice *)




(** ** The document after a pass *)

(** X19: on every well-formed page, [translate()] of the flat-map binder
    completes and leaves a well-formed page whose document is the document
    before the call with, for every element that has [data-translate],
    a key that resolves to a truthy value and no such element above it,
    the children replaced by the nodes parsed from that value; everything
    else, the receiver included, is as it was. *)
Theorem translate_document (parseHTML : string → list Page.Markup)
    (s : Page.State DataAttributes.Translator) :
  Page.wf s →
  ∃ s',
    OnPage.DataAttributes.translate parseHTML s = (Normal tt, s')
    ∧ Page.wf s'
    ∧ Page.this s' = Page.this s
    ∧ Page.snapshot s'
      = map (OnPage.pass_markup parseHTML OnPage.DataAttributes_resolve
               (Page.this s))
            (Page.snapshot s).
Proof.
  intros Hwf. rewrite DataAttributes_translate_on_page.
  by apply pass_snapshot.
Qed.

Lemma translate_document_witness :
  ∃ s',
    OnPage.DataAttributes.translate Examples.parse_text
      (Page.load (DataAttributes.constructor (Some {["hello" := "Привіт"]}))
         [Page.MElem "div" {["data-translate" := "hello"]}
            [Examples.p "bye" "Bye"]] [])
    = (Normal tt, s')
    ∧ Page.snapshot s'
      = [Page.MElem "div" {["data-translate" := "hello"]}
           [Page.MText "Привіт"]].
Proof.
  destruct (translate_document Examples.parse_text
              (Page.load
                 (DataAttributes.constructor (Some {["hello" := "Привіт"]}))
                 [Page.MElem "div" {["data-translate" := "hello"]}
                    [Examples.p "bye" "Bye"]] [])
              (proj1 (load_wf _ _ _)))
    as (s' & Hrun & _ & _ & Hsnap).
  exists s'. split; [exact Hrun |].
  rewrite Hsnap, (proj2 (load_wf _ _ _)). reflexivity.
Defined.
